(** * Evacuation drill simulator: the simulation engine of [simulation.py]

    A shallow embedding of the engine part of the program: the geometry
    helper [dist], the [Fire] class (ignition and spread), the [Person]
    class (the per-frame [update]) and the module-level session state with
    its three button actions and the body of the main loop.  Drawing code
    and the pygame window are left out; they read the state and never
    write it.

    Numbers.  Python integers are [Z].  Python floats are modelled by exact
    rationals [Q]: rounding is not modelled.  [math.hypot] has no rational
    counterpart, so it is a parameter [hypot : Q -> Q -> Q] of everything
    that calls it; a theorem names the properties of [hypot] it relies on
    (none, for most of them).  [hypot_fixed] is an executable instance used
    to run the model on concrete inputs.

    Randomness.  Every draw of the [random] module is an explicit argument
    of the operation that makes it.

    Exceptions.  An operation that can raise returns [option]; [None] is
    the raised exception.  The one division of the engine, by [d] in
    [Person.update], cannot raise: [exit_distance_nonzero] shows the
    divisor is never zero. *)

From Stdlib Require Import ZArith QArith Qround List Bool Lia Lqa Morphisms.
From Stdlib Require Import Qminmax Qabs.
Import ListNotations.

Open Scope Z_scope.

(** ** CONFIG *)

Definition WIDTH : Z := 1200.
Definition HEIGHT : Z := 650.
Definition SIM_WIDTH : Z := 900.

Definition NUM_PEOPLE : nat := 45.
Definition BASE_SPEED : Q := 1.1.
Definition PANIC_MULT : Q := 1.8.
Definition SMOKE_RADIUS : Q := 90.

(** ** Python built-ins used by the engine *)

(** [a < b] on floats. *)
Definition Qltb (a b : Q) : bool := negb (Qle_bool b a).

(** [min(a, b)]: the first argument unless the second is strictly smaller. *)
Definition py_min2 (a b : Q) : Q := if Qltb b a then b else a.

(** [v or w] on floats: [w] when [v] is zero. *)
Definition py_or (v w : Q) : Q := if Qeq_bool v 0%Q then w else v.

(** [min(l, key=key)]: the first element whose key is minimal; [ValueError]
    on the empty list. *)
Definition py_min_key {A : Type} (key : A -> Q) (l : list A) : option A :=
  match l with
  | [] => None
  | a :: l' =>
      Some (fold_left
              (fun best item => if Qltb (key item) (key best) then item else best)
              l' a)
  end.

(** [random.choice(l)] with the underlying draw [r]; [IndexError] on the
    empty list. *)
Definition py_choice {A : Type} (l : list A) (r : nat) : option A :=
  nth_error l (r mod length l)%nat.

(** A tuple of integers used where floats are expected. *)
Definition pointQ (c : Z * Z) : Q * Q := (inject_Z (fst c), inject_Z (snd c)).

(** [[f(a) for a in l]] where [f] may raise. *)
Fixpoint traverse {A B : Type} (f : A -> option B) (l : list A) : option (list B) :=
  match l with
  | [] => Some []
  | a :: l' =>
      match f a with
      | None => None
      | Some b =>
          match traverse f l' with
          | None => None
          | Some bs => Some (b :: bs)
          end
      end
  end.

(** ** pygame.Rect *)

Module Pygame.

(** A rectangle holds four integers. *)
Record Rect := mkRect { left : Z; top : Z; width : Z; height : Z }.

(** Conversion of a float argument to the C [int] stored in the
    rectangle: the fractional part is dropped (rounding toward zero). *)
Definition int_of_float (q : Q) : Z :=
  if Qle_bool 0%Q q then Qfloor q else Qceiling q.

(** [pygame.Rect(l, t, w, h)] called with floats. *)
Definition RectF (l t w h : Q) : Rect :=
  mkRect (int_of_float l) (int_of_float t) (int_of_float w) (int_of_float h).

(** [a.colliderect(b)]: overlap of the half-open rectangles; a rectangle
    of zero width or height collides with nothing. *)
Definition colliderect (a b : Rect) : bool :=
  if (width a =? 0) || (height a =? 0) || (width b =? 0) || (height b =? 0)
  then false
  else
    (Z.min (left a) (left a + width a) <? Z.max (left b) (left b + width b))
    && (Z.min (top a) (top a + height a) <? Z.max (top b) (top b + height b))
    && (Z.min (left b) (left b + width b) <? Z.max (left a) (left a + width a))
    && (Z.min (top b) (top b + height b) <? Z.max (top a) (top a + height a)).

(** [r.collidepoint(pos)]: the left and top edges belong to the rectangle,
    the right and bottom edges do not. *)
Definition collidepoint (r : Rect) (pos : Z * Z) : bool :=
  (left r <=? fst pos) && (fst pos <? left r + width r)
  && (top r <=? snd pos) && (snd pos <? top r + height r).

End Pygame.

Definition EXIT_POSITIONS : list (Z * Z) := [(850, 120); (850, 530)].

Definition WALLS : list Pygame.Rect :=
  [ Pygame.mkRect 250 0 30 450;
    Pygame.mkRect 500 200 30 450;
    Pygame.mkRect 100 350 200 30 ].

(** ** dist *)

Definition dist (hypot : Q -> Q -> Q) (a b : Q * Q) : Q :=
  hypot (fst a - fst b)%Q (snd a - snd b)%Q.

(** ** simpy.Environment

    The engine observes one thing of the scheduler: how many [Fire.spread]
    generators have been registered with [env.process].  ([Person.behavior]
    only yields timeouts and touches no state.) *)

Record Env := mkEnv { spreaders : nat }.

Definition Env_new : Env := mkEnv 0.

Definition env_process_spread (env : Env) : Env := mkEnv (S (spreaders env)).

(** ** class Fire *)

Module Fire.

Record t := mk { cells : list (Z * Z); active : bool }.

(** [Fire.__init__] *)
Definition init : t := mk [] false.

(** [Fire.ignite]: it has no guard of its own. *)
Definition ignite (self : t) (x y : Z) (env : Env) : t * Env :=
  (mk (cells self ++ [(x, y)]) true, env_process_spread env).

(** The clamped perturbation of one coordinate. *)
Definition clamp (hi v : Z) : Z := Z.max 50 (Z.min (hi - 50) v).

(** One turn of the loop of [Fire.spread], after its timeout: [r] is the
    draw of [random.choice], [ox] and [oy] the two [random.randint]. *)
Definition spread (self : t) (r : nat) (ox oy : Z) : option t :=
  match py_choice (cells self) r with
  | None => None
  | Some (x, y) =>
      let nx := clamp SIM_WIDTH (x + ox) in
      let ny := clamp HEIGHT (y + oy) in
      Some (mk (cells self ++ [(nx, ny)]) (active self))
  end.

End Fire.

(** ** class Person *)

Module Person.

Record t := mk { x : Q; y : Q; speed : Q; panic : Q; evacuated : bool }.

(** [Person.__init__]: [u] is the draw of [random.uniform(0.8, 1.2)]. *)
Definition init (x0 y0 : Z) (u : Q) : t :=
  mk (inject_Z x0) (inject_Z y0) (BASE_SPEED * u)%Q 0%Q false.

Definition pos (self : t) : Q * Q := (x self, y self).

(** [pygame.Rect(nx-5, ny-5, 10, 10)] *)
Definition bbox (p : Q * Q) : Pygame.Rect :=
  Pygame.RectF (fst p - 5)%Q (snd p - 5)%Q 10%Q 10%Q.

(** The loop over [WALLS]: does some wall collide with the box at [p]? *)
Definition blocked (walls : list Pygame.Rect) (p : Q * Q) : bool :=
  existsb (fun wall => Pygame.colliderect wall (bbox p)) walls.

Section Update.

Variable hypot : Q -> Q -> Q.
Variable exits : list (Z * Z).
Variable walls : list Pygame.Rect.

(** The loop over [fire_cells]: the panic after it. *)
Definition smoke_panic (self : t) (fire_cells : list (Z * Z)) : Q :=
  fold_left
    (fun pn c =>
       if Qltb (dist hypot (pos self) (pointQ c)) SMOKE_RADIUS
       then py_min2 1%Q (pn + 0.025)%Q
       else pn)
    fire_cells (panic self).

(** [min(EXIT_POSITIONS, key=lambda e: dist((self.x,self.y), e))] *)
Definition nearest_exit (p : Q * Q) : option (Z * Z) :=
  py_min_key (fun e => dist hypot p (pointQ e)) exits.

(** [d = math.hypot(dx, dy) or 1] for target exit [e]. *)
Definition exit_distance (self : t) (e : Z * Z) : Q :=
  let dx := (inject_Z (fst e) - x self)%Q in
  let dy := (inject_Z (snd e) - y self)%Q in
  py_or (hypot dx dy) 1%Q.

(** [(nx, ny)] for panic [pn] and target exit [e]. *)
Definition candidate (self : t) (pn : Q) (e : Z * Z) : Q * Q :=
  let speed' := (speed self * (1 + pn * PANIC_MULT))%Q in
  let dx := (inject_Z (fst e) - x self)%Q in
  let dy := (inject_Z (snd e) - y self)%Q in
  let d := exit_distance self e in
  ((x self + speed' * dx / d)%Q, (y self + speed' * dy / d)%Q).

(** [Person.update] *)
Definition update (self : t) (fire_cells : list (Z * Z)) (alarm_on : bool)
  : option t :=
  if negb alarm_on || evacuated self then Some self
  else
    let pn := smoke_panic self fire_cells in
    match nearest_exit (pos self) with
    | None => None
    | Some e =>
        let n := candidate self pn e in
        if blocked walls n
        then Some (mk (x self) (y self) (speed self) pn (evacuated self))
        else
          Some (mk (fst n) (snd n) (speed self) pn
                  (if Qltb (dist hypot n (pointQ e)) 12%Q then true
                   else evacuated self))
    end.

(** A sequence of [update] calls, one per frame. *)
Fixpoint run (self : t) (frames : list (list (Z * Z) * bool)) : option t :=
  match frames with
  | [] => Some self
  | (fire_cells, alarm_on) :: frames' =>
      match update self fire_cells alarm_on with
      | None => None
      | Some self' => run self' frames'
      end
  end.

End Update.

End Person.

(** ** Session state: the module-level globals [env], [people], [fire] and
    [alarm_on] *)

Record World := mkWorld {
  env : Env;
  people : list Person.t;
  fire : Fire.t;
  alarm_on : bool
}.

(** One agent's draws: the two [random.randint] of the position and the
    [random.uniform] of the speed. *)
Definition spawn_draw : Type := Z * Z * Q.

(** One turn of [Fire.spread]: [random.choice] and the two [random.randint]. *)
Definition spread_draw : Type := nat * Z * Z.

(** [[Person(env, random.randint(50, 700), random.randint(50, 600)) ...]] *)
Definition spawn (draws : list spawn_draw) : list Person.t :=
  map (fun d => Person.init (fst (fst d)) (snd (fst d)) (snd d)) draws.

(** The INIT block of the script. *)
Definition init_world (draws : list spawn_draw) : World :=
  mkWorld Env_new (spawn draws) Fire.init false.

(** [alarm()] *)
Definition alarm (w : World) : World :=
  mkWorld (env w) (people w) (fire w) true.

(** [start_fire()] *)
Definition start_fire (w : World) : World :=
  if negb (Fire.active (fire w))
  then
    let fe := Fire.ignite (fire w) 450 300 (env w) in
    mkWorld (snd fe) (people w) (fst fe) (alarm_on w)
  else w.

(** [reset()] *)
Definition reset (w : World) (draws : list spawn_draw) : World :=
  mkWorld Env_new (spawn draws) Fire.init false.

(** [env.step()] as far as the fire is concerned: [Some d] when the event
    processed is the timeout of a registered [Fire.spread] generator. *)
Definition env_step (w : World) (sd : option spread_draw) : option Fire.t :=
  match sd with
  | None => Some (fire w)
  | Some d =>
      if (0 <? spreaders (env w))%nat
      then Fire.spread (fire w) (fst (fst d)) (snd (fst d)) (snd d)
      else Some (fire w)
  end.

Section Session.

Variable hypot : Q -> Q -> Q.

(** One turn of the main loop after the event handling: [env.step()], then
    [p.update(fire.cells, alarm_on)] for every person. *)
Definition tick (w : World) (sd : option spread_draw) : option World :=
  match env_step w sd with
  | None => None
  | Some f =>
      match traverse
              (fun p => Person.update hypot EXIT_POSITIONS WALLS p
                          (Fire.cells f) (alarm_on w))
              (people w) with
      | None => None
      | Some ps => Some (mkWorld (env w) ps f (alarm_on w))
      end
  end.

Fixpoint ticks (w : World) (sds : list (option spread_draw)) : option World :=
  match sds with
  | [] => Some w
  | sd :: sds' =>
      match tick w sd with
      | None => None
      | Some w' => ticks w' sds'
      end
  end.

(** What can happen to a session: a click on one of the three buttons or
    one turn of the main loop. *)
Inductive action :=
| ClickAlarm
| ClickStartFire
| ClickReset (draws : list spawn_draw)
| Tick (sd : option spread_draw).

Definition step (w : World) (a : action) : option World :=
  match a with
  | ClickAlarm => Some (alarm w)
  | ClickStartFire => Some (start_fire w)
  | ClickReset draws => Some (reset w draws)
  | Tick sd => tick w sd
  end.

Definition is_reset (a : action) : bool :=
  match a with ClickReset _ => true | _ => false end.

(** The ranges of the draws. *)
Definition valid_spawn (d : spawn_draw) : Prop :=
  50 <= fst (fst d) <= 700 /\ 50 <= snd (fst d) <= 600
  /\ (0.8 <= snd d)%Q /\ (snd d <= 1.2)%Q.

Definition valid_spawns (draws : list spawn_draw) : Prop :=
  length draws = NUM_PEOPLE /\ Forall valid_spawn draws.

Definition valid_spread (d : spread_draw) : Prop :=
  -50 <= snd (fst d) <= 50 /\ -50 <= snd d <= 50.

Definition valid_action (a : action) : Prop :=
  match a with
  | ClickReset draws => valid_spawns draws
  | Tick (Some d) => valid_spread d
  | _ => True
  end.

(** The sessions the script can be in. *)
Inductive reachable : World -> Prop :=
| reach_init draws :
    valid_spawns draws -> reachable (init_world draws)
| reach_step w a w' :
    reachable w -> valid_action a -> step w a = Some w' -> reachable w'.

End Session.

(** ** An executable [hypot]

    The square root of the sum of squares, cut after six decimals. *)
Definition hypot_fixed (a b : Q) : Q :=
  (inject_Z (Z.sqrt (Qfloor ((a * a + b * b) * 1000000000000))) / 1000000)%Q.

(** A session with every agent spawned at [(x0, y0)] with speed draw [u]. *)
Definition uniform_world (x0 y0 : Z) (u : Q) : World :=
  init_world (repeat (x0, y0, u) NUM_PEOPLE).

(** The scheduler holds a [Fire.spread] generator only for a fire that has a
    cell to spread from. *)
Definition env_ok (w : World) : Prop :=
  (0 < spreaders (env w))%nat -> Fire.cells (fire w) <> [].

(** Every agent's box is clear of the walls. *)
Definition all_clear (w : World) : Prop :=
  Forall (fun p => Person.blocked WALLS (Person.pos p) = false) (people w).

(** The fire after the one ignition of a session. *)
Definition lit : Fire.t * Env := Fire.ignite Fire.init 450 300 Env_new.

(** ** draw_person: the colour of the body *)

Definition body_color (panic : Q) : Z * Z * Z :=
  if Qltb panic 0.4 then (80, 150, 255)
  else if Qltb panic 0.8 then (255, 200, 80)
  else (255, 80, 80).

(** The agents the main loop draws: [if not p.evacuated]. *)
Definition drawn (w : World) : list Person.t :=
  filter (fun p => negb (Person.evacuated p)) (people w).

(** ** The loop of Fire.spread

    Successive turns of the loop, one per elapsed timeout, each with its
    own draws. *)
Fixpoint spread_turns (f : Fire.t) (ds : list spread_draw) : option Fire.t :=
  match ds with
  | [] => Some f
  | d :: ds' =>
      match Fire.spread f (fst (fst d)) (snd (fst d)) (snd d) with
      | None => None
      | Some f' => spread_turns f' ds'
      end
  end.

(** ** class Button and the MOUSEBUTTONDOWN branch of the main loop

    The callback of a button takes the session and, for [reset], the draws
    the new agents are made of. *)

Module Button.

Record t := mk {
  rect : Pygame.Rect;
  action : World -> list spawn_draw -> World
}.

(** [Button.__init__]; the label is not modelled. *)
Definition init (y : Z) (action : World -> list spawn_draw -> World) : t :=
  mk (Pygame.mkRect 930 y 240 45) action.

(** [Button.click] *)
Definition click (self : t) (pos : Z * Z) (w : World)
  (draws : list spawn_draw) : World :=
  if Pygame.collidepoint (rect self) pos then action self w draws else w.

End Button.

Definition buttons : list Button.t :=
  [ Button.init 60 (fun w _ => alarm w);
    Button.init 120 (fun w _ => start_fire w);
    Button.init 180 reset ].

(** [for b in buttons: b.click(e.pos)] *)
Definition mouse_down (w : World) (pos : Z * Z) (draws : list spawn_draw)
  : World :=
  fold_left (fun w' b => Button.click b pos w' draws) buttons w.

(** The number of fire cells within [SMOKE_RADIUS] of an agent. *)
Definition cells_in_range (hypot : Q -> Q -> Q) (p : Person.t)
  (fire_cells : list (Z * Z)) : nat :=
  length
    (filter (fun c => Qltb (dist hypot (Person.pos p) (pointQ c)) SMOKE_RADIUS)
       fire_cells).

(** What holds of every agent the script makes. *)
Definition agent_ok (p : Person.t) : Prop :=
  (0 <= Person.panic p)%Q /\ (Person.panic p <= 1)%Q
  /\ (0.88 <= Person.speed p)%Q /\ (Person.speed p <= 1.32)%Q.

(** The rectangle the fire is confined to. *)
Definition cell_in_arena (c : Z * Z) : Prop :=
  50 <= fst c <= SIM_WIDTH - 50 /\ 50 <= snd c <= HEIGHT - 50.

(** A sequence of button clicks and turns of the main loop. *)
Fixpoint steps (hypot : Q -> Q -> Q) (w : World) (acts : list action)
  : option World :=
  match acts with
  | [] => Some w
  | a :: acts' =>
      match step hypot w a with
      | None => None
      | Some w' => steps hypot w' acts'
      end
  end.

Definition is_alarm (a : action) : bool :=
  match a with ClickAlarm => true | _ => false end.

(** * Properties *)

(** ** Comparisons and the Python built-ins *)

Lemma Qltb_true (a b : Q) : Qltb a b = true <-> (a < b)%Q.
Proof.
  unfold Qltb. rewrite negb_true_iff, <- not_true_iff_false, Qle_bool_iff.
  split; [apply Qnot_le_lt | apply Qlt_not_le].
Qed.

Lemma Qltb_false (a b : Q) : Qltb a b = false <-> (b <= a)%Q.
Proof.
  unfold Qltb. rewrite negb_false_iff. apply Qle_bool_iff.
Qed.

Lemma py_min2_one_bounds (pn : Q) :
  (0 <= pn)%Q -> (pn <= 1)%Q ->
  (pn <= py_min2 1 (pn + 0.025))%Q /\ (py_min2 1 (pn + 0.025) <= 1)%Q.
Proof.
  intros H0 H1. unfold py_min2.
  destruct (Qltb (pn + 0.025) 1) eqn:E.
  - apply Qltb_true in E. split; lra.
  - split; lra.
Qed.

Lemma py_min_key_fold_In {A : Type} (key : A -> Q) (l : list A) (a : A) :
  let m := fold_left
             (fun best item => if Qltb (key item) (key best) then item else best)
             l a in
  (m = a \/ In m l) /\ (key m <= key a)%Q /\ (forall e, In e l -> (key m <= key e)%Q).
Proof.
  revert a. induction l as [|b l IH]; intros a; cbn.
  - split; [now left|]. split; [lra|]. intros e [].
  - destruct (Qltb (key b) (key a)) eqn:E.
    + destruct (IH b) as (Hin & Hle & Hall).
      apply Qltb_true in E.
      split; [right; destruct Hin; [now left | now right]|].
      split; [lra|].
      intros e [<- | He]; [exact Hle | now apply Hall].
    + destruct (IH a) as (Hin & Hle & Hall).
      apply Qltb_false in E.
      split; [destruct Hin; [now left | right; now right]|].
      split; [exact Hle|].
      intros e [<- | He]; [lra | now apply Hall].
Qed.

Lemma py_min_key_In {A : Type} (key : A -> Q) (l : list A) (m : A) :
  py_min_key key l = Some m -> In m l.
Proof.
  destruct l as [|a l]; cbn; [discriminate|].
  intros [= <-].
  destruct (py_min_key_fold_In key l a) as ([-> | H] & _); [now left | now right].
Qed.

Lemma py_min_key_le {A : Type} (key : A -> Q) (l : list A) (m e : A) :
  py_min_key key l = Some m -> In e l -> (key m <= key e)%Q.
Proof.
  destruct l as [|a l]; cbn; [discriminate|].
  intros [= <-] [<- | He];
    destruct (py_min_key_fold_In key l a) as (_ & Hle & Hall); auto.
Qed.

Lemma py_min_key_total {A : Type} (key : A -> Q) (l : list A) :
  l <> [] -> exists m, py_min_key key l = Some m.
Proof.
  destruct l; [congruence | intros _; cbn; eauto].
Qed.

Lemma py_choice_Some {A : Type} (l : list A) (r : nat) :
  l <> [] -> exists a, py_choice l r = Some a /\ In a l.
Proof.
  intros Hl. unfold py_choice.
  destruct (nth_error l (r mod length l)) eqn:E.
  - exists a. split; [reflexivity | eapply nth_error_In; eauto].
  - apply nth_error_None in E.
    assert (length l <> 0)%nat by (destruct l; cbn; congruence).
    pose proof (Nat.mod_upper_bound r (length l) H). lia.
Qed.

Lemma traverse_Forall2 {A B : Type} (f : A -> option B) (l : list A) (l' : list B) :
  traverse f l = Some l' -> Forall2 (fun a b => f a = Some b) l l'.
Proof.
  revert l'. induction l as [|a l IH]; cbn; intros l'.
  - intros [= <-]. constructor.
  - destruct (f a) eqn:Ea; [|discriminate].
    destruct (traverse f l) eqn:El; [|discriminate].
    intros [= <-]. constructor; auto.
Qed.

Lemma traverse_id {A : Type} (f : A -> option A) (l : list A) :
  (forall a, In a l -> f a = Some a) -> traverse f l = Some l.
Proof.
  induction l as [|a l IH]; cbn; intros H; [reflexivity|].
  rewrite (H a) by now left. rewrite IH; auto.
Qed.

Lemma traverse_total {A B : Type} (f : A -> option B) (l : list A) :
  (forall a, In a l -> exists b, f a = Some b) -> exists l', traverse f l = Some l'.
Proof.
  induction l as [|a l IH]; cbn; intros H; [eauto|].
  destruct (H a) as [b ->]; [now left|].
  destruct IH as [l' ->]; eauto.
Qed.

(** ** Person.update *)

Section PersonFacts.

Variable hypot : Q -> Q -> Q.
Variable exits : list (Z * Z).
Variable walls : list Pygame.Rect.

Local Abbreviation update := (Person.update hypot exits walls).
Local Abbreviation run := (Person.run hypot exits walls).
Local Abbreviation smoke_panic := (Person.smoke_panic hypot).

Lemma update_idle (p : Person.t) (cells : list (Z * Z)) (alarm_on : bool) :
  alarm_on = false \/ Person.evacuated p = true ->
  update p cells alarm_on = Some p.
Proof.
  intros [-> | H]; unfold Person.update; [reflexivity|].
  rewrite H, orb_true_r. reflexivity.
Qed.

(** The three ways an [update] call that does something can end. *)
Lemma update_active (p : Person.t) (cells : list (Z * Z)) :
  Person.evacuated p = false ->
  update p cells true =
    match Person.nearest_exit hypot exits (Person.pos p) with
    | None => None
    | Some e =>
        let n := Person.candidate hypot p (smoke_panic p cells) e in
        if Person.blocked walls n
        then Some (Person.mk (Person.x p) (Person.y p) (Person.speed p)
                     (smoke_panic p cells) false)
        else Some (Person.mk (fst n) (snd n) (Person.speed p)
                     (smoke_panic p cells)
                     (Qltb (dist hypot n (pointQ e)) 12))
    end.
Proof.
  intros H. unfold Person.update. rewrite H. cbn.
  destruct (Person.nearest_exit hypot exits (Person.pos p)); [|reflexivity].
  destruct (Person.blocked walls _); [reflexivity|].
  destruct (Qltb _ 12); reflexivity.
Qed.

Lemma update_total (p : Person.t) (cells : list (Z * Z)) (alarm_on : bool) :
  exits <> [] -> exists p', update p cells alarm_on = Some p'.
Proof.
  intros Hex. unfold Person.update.
  destruct (negb alarm_on || Person.evacuated p); [eauto|].
  destruct (py_min_key_total (fun e => dist hypot (Person.pos p) (pointQ e)) exits Hex)
    as [e He].
  unfold Person.nearest_exit. rewrite He.
  destruct (Person.blocked walls _); eauto.
Qed.

Lemma smoke_panic_bounds (p : Person.t) (cells : list (Z * Z)) :
  (0 <= Person.panic p)%Q -> (Person.panic p <= 1)%Q ->
  (Person.panic p <= smoke_panic p cells)%Q /\ (smoke_panic p cells <= 1)%Q.
Proof.
  unfold Person.smoke_panic.
  generalize (Person.panic p) as pn.
  induction cells as [|c cells IH]; intros pn H0 H1; cbn.
  - split; lra.
  - destruct (Qltb _ SMOKE_RADIUS).
    + destruct (py_min2_one_bounds pn H0 H1) as [Ha Hb].
      destruct (IH (py_min2 1 (pn + 0.025))) as [Hc Hd]; [lra | lra |].
      split; lra.
    + now apply IH.
Qed.

Lemma update_panic (p p' : Person.t) (cells : list (Z * Z)) (alarm_on : bool) :
  (0 <= Person.panic p)%Q -> (Person.panic p <= 1)%Q ->
  update p cells alarm_on = Some p' ->
  (Person.panic p <= Person.panic p')%Q /\ (Person.panic p' <= 1)%Q.
Proof.
  intros H0 H1. unfold Person.update.
  destruct (negb alarm_on || Person.evacuated p).
  - intros [= <-]. split; lra.
  - pose proof (smoke_panic_bounds p cells H0 H1) as Hs.
    destruct (Person.nearest_exit hypot exits (Person.pos p)); [|discriminate].
    destruct (Person.blocked walls _); intros [= <-]; exact Hs.
Qed.

Lemma run_panic (p p' : Person.t) (frames : list (list (Z * Z) * bool)) :
  (0 <= Person.panic p)%Q -> (Person.panic p <= 1)%Q ->
  run p frames = Some p' ->
  (Person.panic p <= Person.panic p')%Q /\ (Person.panic p' <= 1)%Q.
Proof.
  revert p. induction frames as [|[cells al] frames IH]; intros p H0 H1; cbn.
  - intros [= <-]. split; lra.
  - destruct (update p cells al) as [q|] eqn:E; [|discriminate].
    destruct (update_panic p q cells al H0 H1 E) as [Ha Hb].
    intros Hr. destruct (IH q) as [Hc Hd]; [lra | lra | exact Hr |].
    split; lra.
Qed.

Lemma update_clear (p p' : Person.t) (cells : list (Z * Z)) (alarm_on : bool) :
  update p cells alarm_on = Some p' ->
  Person.pos p' = Person.pos p \/ Person.blocked walls (Person.pos p') = false.
Proof.
  unfold Person.update.
  destruct (negb alarm_on || Person.evacuated p).
  - intros [= <-]. now left.
  - destruct (Person.nearest_exit hypot exits (Person.pos p)) as [e|]; [|discriminate].
    destruct (Person.blocked walls _) eqn:Eb; intros [= <-].
    + now left.
    + right. exact Eb.
Qed.

End PersonFacts.

(** ** Fire *)

Lemma spread_appends (f f' : Fire.t) (r : nat) (ox oy : Z) :
  Fire.spread f r ox oy = Some f' ->
  exists c,
    In c (Fire.cells f)
    /\ Fire.cells f' =
         Fire.cells f ++ [(Fire.clamp SIM_WIDTH (fst c + ox),
                           Fire.clamp HEIGHT (snd c + oy))]
    /\ Fire.active f' = Fire.active f.
Proof.
  unfold Fire.spread, py_choice.
  destruct (nth_error (Fire.cells f) _) as [[x y]|] eqn:E; [|discriminate].
  intros [= <-]. exists (x, y). cbn.
  split; [eapply nth_error_In; eauto | auto].
Qed.

Lemma spread_total (f : Fire.t) (r : nat) (ox oy : Z) :
  Fire.cells f <> [] -> exists f', Fire.spread f r ox oy = Some f'.
Proof.
  intros H. unfold Fire.spread.
  destruct (py_choice_Some (Fire.cells f) r H) as ([x y] & -> & _). eauto.
Qed.

Lemma clamp_bounds (hi v : Z) :
  100 <= hi -> 50 <= Fire.clamp hi v <= hi - 50.
Proof. unfold Fire.clamp. lia. Qed.

(** ** The session *)

Section SessionFacts.

Variable hypot : Q -> Q -> Q.

Lemma env_step_appends (w : World) (sd : option spread_draw) (f : Fire.t) :
  env_step w sd = Some f ->
  (exists l, Fire.cells f = Fire.cells (fire w) ++ l)
  /\ Fire.active f = Fire.active (fire w).
Proof.
  unfold env_step. destruct sd as [d|].
  - destruct (0 <? spreaders (env w))%nat.
    + intros H. apply spread_appends in H as (c & _ & Hc & Ha).
      split; [eauto | exact Ha].
    + intros [= <-]. split; [exists []; now rewrite app_nil_r | reflexivity].
  - intros [= <-]. split; [exists []; now rewrite app_nil_r | reflexivity].
Qed.

Lemma env_step_total (w : World) (sd : option spread_draw) :
  env_ok w -> exists f, env_step w sd = Some f.
Proof.
  intros H. unfold env_step. destruct sd as [d|]; [|eauto].
  destruct (0 <? spreaders (env w))%nat eqn:E; [|eauto].
  apply spread_total, H. now apply Nat.ltb_lt.
Qed.

Lemma tick_inv (w w' : World) (sd : option spread_draw) :
  tick hypot w sd = Some w' ->
  env w' = env w /\ alarm_on w' = alarm_on w
  /\ env_step w sd = Some (fire w')
  /\ Forall2 (fun p p' => Person.update hypot EXIT_POSITIONS WALLS p
                            (Fire.cells (fire w')) (alarm_on w) = Some p')
       (people w) (people w').
Proof.
  unfold tick. destruct (env_step w sd) as [f|]; [|discriminate].
  destruct (traverse _ (people w)) as [ps|] eqn:E; [|discriminate].
  intros [= <-]. cbn. repeat split. now apply traverse_Forall2.
Qed.

Lemma tick_total (w : World) (sd : option spread_draw) :
  env_ok w -> exists w', tick hypot w sd = Some w'.
Proof.
  intros H. unfold tick.
  destruct (env_step_total w sd H) as [f ->].
  destruct (traverse_total
              (fun p => Person.update hypot EXIT_POSITIONS WALLS p
                          (Fire.cells f) (alarm_on w)) (people w)) as [ps ->];
    [|eauto].
  intros p _. apply update_total. discriminate.
Qed.

Lemma step_fire (w w' : World) (a : action) :
  step hypot w a = Some w' -> is_reset a = false ->
  (exists l, Fire.cells (fire w') = Fire.cells (fire w) ++ l)
  /\ (Fire.active (fire w) = true -> Fire.active (fire w') = true).
Proof.
  destruct a as [| |draws|sd]; cbn; intros H Hr; try discriminate.
  - injection H as <-. cbn. split; [exists []; now rewrite app_nil_r | auto].
  - injection H as <-. unfold start_fire.
    destruct (Fire.active (fire w)) eqn:E; cbn.
    + split; [exists []; now rewrite app_nil_r | now rewrite E].
    + split; [eauto | auto].
  - apply tick_inv in H as (_ & _ & Hf & _).
    apply env_step_appends in Hf as [Hl Ha].
    split; [exact Hl | now rewrite Ha].
Qed.

(** What the scheduler and the fire agree on in every session. *)
Lemma reachable_inv (w : World) :
  reachable hypot w ->
  ((0 < spreaders (env w))%nat -> Fire.active (fire w) = true)
  /\ (Fire.active (fire w) = true -> Fire.cells (fire w) <> []).
Proof.
  induction 1 as [draws Hd | w a w' Hw [IH1 IH2] Ha Hs].
  - cbn. split; [lia | discriminate].
  - destruct a as [| |draws|sd]; cbn in Hs.
    + injection Hs as <-. cbn. auto.
    + injection Hs as <-. unfold start_fire.
      destruct (Fire.active (fire w)) eqn:E; cbn.
      * rewrite E. auto.
      * split; [reflexivity|]. intros _ Happ.
        now apply app_eq_nil in Happ as [_ ?].
    + injection Hs as <-. cbn. split; [lia | discriminate].
    + apply tick_inv in Hs as (He & _ & Hf & _).
      apply env_step_appends in Hf as [[l Hl] Hact].
      rewrite He, Hact, Hl. split; [exact IH1|].
      intros Ht Happ. apply app_eq_nil in Happ as [? _]. now apply IH2.
Qed.

Lemma reachable_env_ok (w : World) : reachable hypot w -> env_ok w.
Proof.
  intros H Hs. destruct (reachable_inv w H) as [H1 H2]. auto.
Qed.

End SessionFacts.

(** * The claims *)

(** ** C1: the collision invariant *)

(** C1, as stated, fails.  The claim covers the position an agent is
    spawned at; the spawn draws are not checked against the walls.  In the
    session where every agent is spawned at (260, 100), a point inside the
    first wall, the box of an agent intersects that wall. *)
Lemma C1_counterexample :
  ~ (forall w, reachable hypot_fixed w ->
       forall p, In p (people w) ->
         Person.blocked WALLS (Person.pos p) = false).
Proof.
  intros H.
  assert (Hr : reachable hypot_fixed (uniform_world 260 100 1)).
  { apply reach_init. split; [reflexivity|].
    apply Forall_forall. intros d Hd. apply repeat_spec in Hd. subst d.
    unfold valid_spawn. cbn. repeat apply conj; try lia; vm_compute; discriminate. }
  specialize (H _ Hr (Person.init 260 100 1) (or_introl eq_refl)).
  vm_compute in H. discriminate H.
Qed.

(** C1, amended.  A position committed by [update] has a box that
    intersects no wall: an [update] call either leaves the position as it
    was or moves the agent to a position whose box is clear of every wall.
    Hence a session in which every agent's box is clear stays so under
    every action other than a reset. *)
Theorem C1_committed_positions_clear (hypot : Q -> Q -> Q) :
  (forall exits walls p cells al p',
      Person.update hypot exits walls p cells al = Some p' ->
      Person.pos p' = Person.pos p
      \/ Person.blocked walls (Person.pos p') = false)
  /\ (forall w a w',
        all_clear w -> is_reset a = false -> step hypot w a = Some w' ->
        all_clear w').
Proof.
  split.
  - intros exits walls p cells al p'. apply update_clear.
  - intros w a w' Hc Hr Hs. unfold all_clear in *.
    destruct a as [| |draws|sd]; cbn in Hs; try discriminate.
    + injection Hs as <-. exact Hc.
    + injection Hs as <-. unfold start_fire.
      destruct (negb (Fire.active (fire w))); exact Hc.
    + apply tick_inv in Hs as (_ & _ & _ & Hp).
      induction Hp as [|p p' ps ps' Hu Hp IH]; [constructor|].
      inversion Hc as [|? ? Hcp Hcps]; subst.
      constructor; [|now apply IH].
      destruct (update_clear _ _ _ _ _ _ _ Hu) as [He | Hb]; [|exact Hb].
      now rewrite He.
Qed.

(** ** C2: igniting an active fire *)

(** C2, as stated, fails.  [Fire.ignite] has no guard: on the fire of a
    session that has been ignited once it appends a second cell and
    registers a second [spread] generator. *)
Lemma C2_counterexample :
  ~ (forall f e x y,
       Fire.active f = true -> Fire.ignite f x y e = (f, e)).
Proof.
  intros H. specialize (H (fst lit) (snd lit) 450 300 eq_refl).
  discriminate H.
Qed.

(** C2, amended.  The guard is in [start_fire]: on a session whose fire is
    active it changes nothing, so calling it twice gives the state that
    calling it once gives; on a session whose fire is inert it is the one
    [ignite] at (450, 300). *)
Theorem C2_start_fire_idempotent (w : World) :
  (Fire.active (fire w) = true -> start_fire w = w)
  /\ start_fire (start_fire w) = start_fire w
  /\ (Fire.active (fire w) = false ->
      start_fire w =
        mkWorld (snd (Fire.ignite (fire w) 450 300 (env w))) (people w)
          (fst (Fire.ignite (fire w) 450 300 (env w))) (alarm_on w)).
Proof.
  unfold start_fire.
  destruct (Fire.active (fire w)) eqn:E; cbn.
  - rewrite E. cbn. repeat split; auto. discriminate.
  - repeat split; auto. discriminate.
Qed.

(** ** C3: panic *)

(** C3.  Along every sequence of [update] calls made on an agent from its
    construction on, the panic starts at 0, never decreases from one call
    to a later one and stays within [0, 1]. *)
Theorem C3_panic_monotone_bounded (hypot : Q -> Q -> Q) (exits : list (Z * Z))
    (walls : list Pygame.Rect) (x0 y0 : Z) (u : Q)
    (before after : list (list (Z * Z) * bool)) (p1 p2 : Person.t) :
  Person.run hypot exits walls (Person.init x0 y0 u) before = Some p1 ->
  Person.run hypot exits walls p1 after = Some p2 ->
  Person.panic (Person.init x0 y0 u) = 0%Q
  /\ (0 <= Person.panic p1)%Q
  /\ (Person.panic p1 <= Person.panic p2)%Q
  /\ (Person.panic p2 <= 1)%Q.
Proof.
  intros H1 H2.
  assert (H0 : (0 <= Person.panic (Person.init x0 y0 u))%Q) by (cbn; lra).
  assert (H0' : (Person.panic (Person.init x0 y0 u) <= 1)%Q) by (cbn; lra).
  destruct (run_panic _ _ _ _ _ before H0 H0' H1) as [Ha Hb].
  cbn in Ha.
  destruct (run_panic _ _ _ _ _ after Ha Hb H2) as [Hc Hd].
  auto.
Qed.

(** ** C4: evacuated is terminal *)

(** C4.  On an evacuated agent every [update] call, and so every sequence
    of them, returns the agent as it was: position, panic, speed and the
    evacuated flag are unchanged. *)
Theorem C4_evacuated_terminal (hypot : Q -> Q -> Q) (exits : list (Z * Z))
    (walls : list Pygame.Rect) (p : Person.t) :
  Person.evacuated p = true ->
  (forall cells al, Person.update hypot exits walls p cells al = Some p)
  /\ (forall frames, Person.run hypot exits walls p frames = Some p).
Proof.
  intros He.
  assert (Hu : forall cells al,
             Person.update hypot exits walls p cells al = Some p).
  { intros. apply update_idle. now right. }
  split; [exact Hu|].
  induction frames as [|[cells al] frames IH]; cbn; [reflexivity|].
  now rewrite Hu.
Qed.

(** ** C5: no alarm, no change *)

(** C5.  In a session whose alarm is off, any number of turns of the main
    loop leaves the list of agents exactly as it was (position, panic and
    evacuated flag of every agent) and the alarm off; and the turns do run
    to the end whenever the scheduler holds no spread generator for a fire
    without cells. *)
Theorem C5_alarm_off_frame (hypot : Q -> Q -> Q) (w : World)
    (sds : list (option spread_draw)) :
  alarm_on w = false ->
  (forall w', ticks hypot w sds = Some w' ->
              people w' = people w /\ alarm_on w' = false)
  /\ (env_ok w -> exists w', ticks hypot w sds = Some w').
Proof.
  revert w. induction sds as [|sd sds IH]; intros w Ha; cbn.
  - split; [intros w' [= <-]; auto | eauto].
  - assert (Ht : forall w1, tick hypot w sd = Some w1 ->
                   people w1 = people w /\ alarm_on w1 = false).
    { unfold tick. intros w1.
      destruct (env_step w sd) as [f|]; [|discriminate].
      rewrite traverse_id.
      - intros [= <-]. auto.
      - intros p _. apply update_idle. now left. }
    split.
    + intros w'. destruct (tick hypot w sd) as [w1|] eqn:E; [|discriminate].
      destruct (Ht w1 eq_refl) as [Hp Hal].
      intros Hr. destruct (IH w1 Hal) as [H1 _].
      destruct (H1 w' Hr) as [Hp' Hal']. split; [congruence | exact Hal'].
    + intros Hok. destruct (tick_total hypot w sd Hok) as [w1 E].
      rewrite E. destruct (Ht w1 E) as [Hp Hal].
      destruct (IH w1 Hal) as [_ H2]. apply H2.
      apply tick_inv in E as (He & _ & Hf & _).
      apply env_step_appends in Hf as [[l Hl] _].
      unfold env_ok. rewrite He, Hl. intros Hs Happ.
      apply app_eq_nil in Happ as [? _]. now apply Hok.
Qed.

(** ** C6: an agent standing on its exit *)

Lemma exit_distance_nonzero (hypot : Q -> Q -> Q) (p : Person.t) (e : Z * Z) :
  ~ (Person.exit_distance hypot p e == 0)%Q.
Proof.
  unfold Person.exit_distance, py_or.
  destruct (Qeq_bool _ 0) eqn:E.
  - intros H. discriminate H.
  - now apply Qeq_bool_neq.
Qed.

(** C6.  With one exit, the alarm on, no fire cell and an agent that stands
    exactly on the exit and whose candidate box meets no wall, the first
    [update] call returns with the agent evacuated.  The length of the
    direction is 0, so the divisor [d] is 1; the agent stays on the exit
    and its panic is unchanged.  Used of [math.hypot]: it gives 0 at
    (0, 0), and equal arguments give equal results. *)
Theorem C6_agent_on_exit_evacuates (hypot : Q -> Q -> Q)
    (walls : list Pygame.Rect) (e : Z * Z) (p : Person.t) :
  Proper (Qeq ==> Qeq ==> Qeq) hypot ->
  (hypot 0 0 == 0)%Q ->
  Person.evacuated p = false ->
  (Person.x p == inject_Z (fst e))%Q ->
  (Person.y p == inject_Z (snd e))%Q ->
  Person.blocked walls (Person.candidate hypot p (Person.panic p) e) = false ->
  exists p',
    Person.update hypot [e] walls p [] true = Some p'
    /\ Person.evacuated p' = true
    /\ Person.exit_distance hypot p e = 1%Q
    /\ (Person.x p' == Person.x p)%Q
    /\ (Person.y p' == Person.y p)%Q
    /\ Person.panic p' = Person.panic p.
Proof.
  intros Hproper Hzero Hev Hx Hy Hclear.
  assert (Hdx : (inject_Z (fst e) - Person.x p == 0)%Q) by (rewrite Hx; ring).
  assert (Hdy : (inject_Z (snd e) - Person.y p == 0)%Q) by (rewrite Hy; ring).
  assert (Hd : Person.exit_distance hypot p e = 1%Q).
  { unfold Person.exit_distance, py_or.
    rewrite (Qeq_eq_bool _ 0); [reflexivity|].
    rewrite (Hproper _ _ Hdx _ _ Hdy). exact Hzero. }
  assert (Hnx : (fst (Person.candidate hypot p (Person.panic p) e)
                 == Person.x p)%Q).
  { unfold Person.candidate. cbn [fst]. rewrite Hd, Hdx. unfold Qdiv. ring. }
  assert (Hny : (snd (Person.candidate hypot p (Person.panic p) e)
                 == Person.y p)%Q).
  { unfold Person.candidate. cbn [snd]. rewrite Hd, Hdy. unfold Qdiv. ring. }
  rewrite update_active by exact Hev.
  change (Person.nearest_exit hypot [e] (Person.pos p)) with (Some e).
  change (Person.smoke_panic hypot p []) with (Person.panic p).
  cbv beta iota zeta. rewrite Hclear.
  eexists. split; [reflexivity|]. cbn [Person.evacuated Person.x Person.y Person.panic].
  repeat split; auto.
  apply Qltb_true. unfold dist, pointQ. cbn [fst snd].
  assert (Hfx : (fst (Person.candidate hypot p (Person.panic p) e)
                 - inject_Z (fst e) == 0)%Q) by (rewrite Hnx, Hx; ring).
  assert (Hfy : (snd (Person.candidate hypot p (Person.panic p) e)
                 - inject_Z (snd e) == 0)%Q) by (rewrite Hny, Hy; ring).
  rewrite (Hproper _ _ Hfx _ _ Hfy), Hzero. reflexivity.
Qed.

(** ** C7: arrival *)

(** C7.  When an [update] call turns the evacuated flag from false to true,
    the agent's distance (as [dist] computes it) from the position it then
    has to the exit nearest to that position is strictly less than 12. *)
Theorem C7_evacuated_only_within_radius (hypot : Q -> Q -> Q)
    (exits : list (Z * Z)) (walls : list Pygame.Rect)
    (p p' : Person.t) (cells : list (Z * Z)) (al : bool) :
  Person.evacuated p = false ->
  Person.update hypot exits walls p cells al = Some p' ->
  Person.evacuated p' = true ->
  exists e,
    Person.nearest_exit hypot exits (Person.pos p') = Some e
    /\ (dist hypot (Person.pos p') (pointQ e) < 12)%Q.
Proof.
  intros Hev Hu Hev'.
  destruct al.
  2:{ rewrite update_idle in Hu by now left. congruence. }
  rewrite update_active in Hu by exact Hev.
  destruct (Person.nearest_exit hypot exits (Person.pos p)) as [t|] eqn:Et;
    [|discriminate].
  cbv zeta in Hu.
  destruct (Person.blocked walls _); injection Hu as <-; cbn in Hev';
    [discriminate|].
  apply Qltb_true in Hev'.
  set (n := Person.candidate hypot p (Person.smoke_panic hypot p cells) t) in *.
  match goal with
  | |- context [Person.pos ?q] => change (Person.pos q) with n
  end.
  pose proof (py_min_key_In _ _ _ Et) as Hin.
  destruct (py_min_key_total (fun e => dist hypot n (pointQ e)) exits) as [e He].
  { intros ->. destruct Hin. }
  exists e. split; [exact He|].
  pose proof (py_min_key_le _ _ _ _ He Hin) as Hle. cbn in Hle. lra.
Qed.

(** ** C8: one turn of the spread *)

(** C8.  One turn of [Fire.spread] on a fire that has a cell appends exactly
    one cell: a cell of the current sequence moved by the two offsets and
    clamped, so that its x lies in [50, SIM_WIDTH - 50] and its y in
    [50, HEIGHT - 50], inside the arena's height.  (The bounds hold for
    every offset, so for the offsets in [-50, 50] that are drawn.) *)
Theorem C8_spread_appends_clamped_cell (f : Fire.t) (r : nat) (ox oy : Z) :
  Fire.cells f <> [] ->
  exists c nx ny,
    In c (Fire.cells f)
    /\ nx = Z.max 50 (Z.min (SIM_WIDTH - 50) (fst c + ox))
    /\ ny = Z.max 50 (Z.min (HEIGHT - 50) (snd c + oy))
    /\ Fire.spread f r ox oy
       = Some (Fire.mk (Fire.cells f ++ [(nx, ny)]) (Fire.active f))
    /\ 50 <= nx <= SIM_WIDTH - 50
    /\ 50 <= ny <= HEIGHT - 50
    /\ 0 <= ny <= HEIGHT
    /\ length (Fire.cells f ++ [(nx, ny)]) = S (length (Fire.cells f)).
Proof.
  intros Hne.
  destruct (py_choice_Some (Fire.cells f) r Hne) as ([x y] & Hc & Hin).
  exists (x, y). do 2 eexists.
  split; [exact Hin|]. split; [reflexivity|]. split; [reflexivity|].
  split.
  { unfold Fire.spread. rewrite Hc. reflexivity. }
  cbn [fst snd]. unfold SIM_WIDTH, HEIGHT.
  repeat split; try lia.
  rewrite length_app. cbn. lia.
Qed.

(** ** C9: the fire only grows *)

(** C9.  In every session the script can be in: an active fire has a cell;
    every action other than a reset keeps the cells it finds and only
    appends to them, so their number never goes down, and leaves an active
    fire active; a reset installs a fresh inert fire without cells. *)
Theorem C9_fire_grows_and_stays_active (hypot : Q -> Q -> Q) (w : World) :
  reachable hypot w ->
  (Fire.active (fire w) = true -> Fire.cells (fire w) <> [])
  /\ (forall a w',
        step hypot w a = Some w' -> is_reset a = false ->
        (exists l, Fire.cells (fire w') = Fire.cells (fire w) ++ l)
        /\ (length (Fire.cells (fire w)) <= length (Fire.cells (fire w')))%nat
        /\ (Fire.active (fire w) = true -> Fire.active (fire w') = true))
  /\ (forall draws,
        step hypot w (ClickReset draws) = Some (reset w draws)
        /\ fire (reset w draws) = Fire.init
        /\ Fire.active Fire.init = false /\ Fire.cells Fire.init = []).
Proof.
  intros Hr. split; [apply (reachable_inv hypot w Hr)|]. split.
  - intros a w' Hs Hnr.
    destruct (step_fire hypot w w' a Hs Hnr) as [[l Hl] Ha].
    split; [eauto|]. split; [|exact Ha].
    rewrite Hl, length_app. lia.
  - intros draws. repeat split.
Qed.

(** ** C10: a blocked move *)

(** C10.  With the alarm on, for an agent that is not evacuated and whose
    candidate box intersects some wall, [update] returns the agent at the
    position it had and still not evacuated, whatever its distance to the
    exit; its panic is the one reached by the loop over the fire cells,
    which is not below the panic it had. *)
Theorem C10_blocked_move_keeps_position (hypot : Q -> Q -> Q)
    (exits : list (Z * Z)) (walls : list Pygame.Rect)
    (p : Person.t) (cells : list (Z * Z)) (e : Z * Z) :
  Person.evacuated p = false ->
  Person.nearest_exit hypot exits (Person.pos p) = Some e ->
  Person.blocked walls
    (Person.candidate hypot p (Person.smoke_panic hypot p cells) e) = true ->
  Person.update hypot exits walls p cells true
  = Some (Person.mk (Person.x p) (Person.y p) (Person.speed p)
            (Person.smoke_panic hypot p cells) false)
  /\ ((0 <= Person.panic p)%Q -> (Person.panic p <= 1)%Q ->
      (Person.panic p <= Person.smoke_panic hypot p cells)%Q).
Proof.
  intros Hev He Hb. split.
  - rewrite update_active by exact Hev. rewrite He. cbv zeta.
    now rewrite Hb.
  - intros H0 H1. now apply smoke_panic_bounds.
Qed.

(** * The theorems at concrete inputs *)

Lemma hypot_fixed_proper : Proper (Qeq ==> Qeq ==> Qeq) hypot_fixed.
Proof.
  intros a a' Ha b b' Hb. unfold hypot_fixed.
  assert (E : Qfloor ((a * a + b * b) * 1000000000000)
              = Qfloor ((a' * a' + b' * b') * 1000000000000)).
  { apply Qfloor_comp. now rewrite Ha, Hb. }
  now rewrite E.
Qed.

Lemma hypot_fixed_zero : (hypot_fixed 0 0 == 0)%Q.
Proof. reflexivity. Qed.

(** An agent at (244, 100) with the alarm on moves one step to the right
    and its box stays clear of the wall at x = 250. *)
Lemma C1_witness :
  all_clear (mkWorld Env_new [Person.init 244 100 1] Fire.init true)
  /\ exists w',
       step hypot_fixed (mkWorld Env_new [Person.init 244 100 1] Fire.init true)
         (Tick None) = Some w'
       /\ all_clear w'.
Proof.
  assert (Hc : all_clear (mkWorld Env_new [Person.init 244 100 1] Fire.init true)).
  { repeat constructor. }
  split; [exact Hc|].
  destruct (step hypot_fixed (mkWorld Env_new [Person.init 244 100 1] Fire.init true)
              (Tick None)) as [w'|] eqn:E.
  - exists w'. split; [reflexivity|].
    exact (proj2 (C1_committed_positions_clear hypot_fixed) _ (Tick None) _
             Hc eq_refl E).
  - vm_compute in E. discriminate E.
Defined.

(** A second [start_fire] on a session that has been ignited. *)
Lemma C2_witness :
  Fire.active (fire (start_fire (init_world []))) = true
  /\ start_fire (start_fire (init_world [])) = start_fire (init_world []).
Proof.
  split; [reflexivity|].
  exact (proj1 (C2_start_fire_idempotent (start_fire (init_world []))) eq_refl).
Defined.

(** Two frames next to a fire cell: the panic goes 0, 0.025, 0.05. *)
Lemma C3_witness :
  exists p1 p2,
    Person.run hypot_fixed EXIT_POSITIONS WALLS (Person.init 245 100 1)
      [([(245, 100)], true)] = Some p1
    /\ Person.run hypot_fixed EXIT_POSITIONS WALLS p1
         [([(245, 100)], true)] = Some p2
    /\ (Person.panic p1 == 0.025)%Q /\ (Person.panic p2 == 0.05)%Q
    /\ (0 <= Person.panic p1)%Q
    /\ (Person.panic p1 <= Person.panic p2)%Q
    /\ (Person.panic p2 <= 1)%Q.
Proof.
  destruct (Person.run hypot_fixed EXIT_POSITIONS WALLS (Person.init 245 100 1)
              [([(245, 100)], true)]) as [p1|] eqn:E1;
    [|vm_compute in E1; discriminate E1].
  destruct (Person.run hypot_fixed EXIT_POSITIONS WALLS p1
              [([(245, 100)], true)]) as [p2|] eqn:E2.
  - exists p1, p2.
    destruct (C3_panic_monotone_bounded hypot_fixed EXIT_POSITIONS WALLS
                245 100 1 _ _ p1 p2 E1 E2) as (_ & Ha & Hb & Hc).
    vm_compute in E1. injection E1 as <-.
    vm_compute in E2. injection E2 as <-.
    repeat split; auto.
  - vm_compute in E1. injection E1 as <-.
    vm_compute in E2. discriminate E2.
Defined.

(** An evacuated agent standing next to a fire cell with the alarm on. *)
Lemma C4_witness :
  Person.update hypot_fixed EXIT_POSITIONS WALLS
    (Person.mk 845 120 1.1 0.5 true) [(845, 120)] true
  = Some (Person.mk 845 120 1.1 0.5 true).
Proof.
  exact (proj1 (C4_evacuated_terminal hypot_fixed EXIT_POSITIONS WALLS
                  (Person.mk 845 120 1.1 0.5 true) eq_refl) _ _).
Defined.

(** A session with the fire lit and the alarm off: the fire spreads, the
    agents do not change. *)
Lemma C5_witness :
  exists w',
    ticks hypot_fixed (start_fire (uniform_world 260 100 1))
      [Some (0%nat, 10, -10); None] = Some w'
    /\ people w' = people (start_fire (uniform_world 260 100 1))
    /\ alarm_on w' = false.
Proof.
  assert (Hok : env_ok (start_fire (uniform_world 260 100 1))).
  { intros _. discriminate. }
  destruct (C5_alarm_off_frame hypot_fixed (start_fire (uniform_world 260 100 1))
              [Some (0%nat, 10, -10); None] eq_refl) as [Hframe Htotal].
  destruct (Htotal Hok) as [w' E].
  exists w'. split; [exact E|]. exact (Hframe w' E).
Defined.

(** An agent spawned on the first exit, with that exit as the only one. *)
Lemma C6_witness :
  exists p',
    Person.update hypot_fixed [(850, 120)] WALLS (Person.init 850 120 1) [] true
    = Some p'
    /\ Person.evacuated p' = true.
Proof.
  destruct (C6_agent_on_exit_evacuates hypot_fixed WALLS (850, 120)
              (Person.init 850 120 1) hypot_fixed_proper hypot_fixed_zero
              eq_refl ltac:(reflexivity) ltac:(reflexivity)
              ltac:(vm_compute; reflexivity))
    as (p' & Hu & He & _).
  exists p'. split; [exact Hu | exact He].
Defined.

(** An agent five units from the first exit arrives at its next step. *)
Lemma C7_witness :
  exists p' e,
    Person.update hypot_fixed EXIT_POSITIONS WALLS (Person.init 845 120 1) [] true
    = Some p'
    /\ Person.evacuated p' = true
    /\ Person.nearest_exit hypot_fixed EXIT_POSITIONS (Person.pos p') = Some e
    /\ (dist hypot_fixed (Person.pos p') (pointQ e) < 12)%Q.
Proof.
  destruct (Person.update hypot_fixed EXIT_POSITIONS WALLS
              (Person.init 845 120 1) [] true) as [p'|] eqn:E;
    [|vm_compute in E; discriminate E].
  assert (He : Person.evacuated p' = true).
  { vm_compute in E. injection E as <-. reflexivity. }
  destruct (C7_evacuated_only_within_radius hypot_fixed EXIT_POSITIONS WALLS
              (Person.init 845 120 1) p' [] true eq_refl E He) as (e & Hn & Hd).
  exists p', e. auto.
Defined.

(** The first turn of the spread after the ignition at (450, 300). *)
Lemma C8_witness :
  exists nx ny,
    Fire.spread (fst lit) 7 (-50) 50
    = Some (Fire.mk (Fire.cells (fst lit) ++ [(nx, ny)]) true)
    /\ 50 <= nx <= SIM_WIDTH - 50
    /\ 50 <= ny <= HEIGHT - 50.
Proof.
  assert (Hne : Fire.cells (fst lit) <> []) by discriminate.
  destruct (C8_spread_appends_clamped_cell (fst lit) 7 (-50) 50 Hne)
    as (c & nx & ny & _ & _ & _ & Hs & Hx & Hy & _).
  exists nx, ny. auto.
Defined.

(** The session right after the fire has been started. *)
Lemma C9_witness :
  reachable hypot_fixed (start_fire (uniform_world 260 100 1))
  /\ Fire.cells (fire (start_fire (uniform_world 260 100 1))) <> [].
Proof.
  assert (Hr : reachable hypot_fixed (start_fire (uniform_world 260 100 1))).
  { apply (reach_step hypot_fixed (uniform_world 260 100 1) ClickStartFire);
      [|exact I|reflexivity].
    apply reach_init. split; [reflexivity|].
    apply Forall_forall. intros d Hd. apply repeat_spec in Hd. subst d.
    unfold valid_spawn. cbn.
    repeat apply conj; try (intro Hcmp; discriminate Hcmp). }
  split; [exact Hr|].
  exact (proj1 (C9_fire_grows_and_stays_active hypot_fixed _ Hr) eq_refl).
Defined.

(** An agent five units from its exit, already inside the arrival radius,
    with a wall across its next step and a fire cell under its feet: it
    stays where it is, not evacuated, and its panic rises to 0.025. *)
Lemma C10_witness :
  (dist hypot_fixed (Person.pos (Person.init 845 120 1))
     (pointQ (850, 120)%Z) < 12)%Q
  /\ exists p',
       Person.update hypot_fixed EXIT_POSITIONS [Pygame.mkRect 840 110 30 30]
         (Person.init 845 120 1) [(845, 120)] true = Some p'
       /\ Person.evacuated p' = false
       /\ Person.pos p' = Person.pos (Person.init 845 120 1)
       /\ (Person.panic p' == 0.025)%Q.
Proof.
  split; [reflexivity|].
  eexists. split.
  - exact (proj1 (C10_blocked_move_keeps_position hypot_fixed EXIT_POSITIONS
                    [Pygame.mkRect 840 110 30 30] (Person.init 845 120 1)
                    [(845, 120)] (850, 120) eq_refl
                    ltac:(vm_compute; reflexivity)
                    ltac:(vm_compute; reflexivity))).
  - split; [reflexivity|]. split; reflexivity.
Defined.

(** * Further properties of the engine *)

(** ** Agents of a session *)

Lemma Forall2_Forall_step {A : Type} (P : A -> Prop) (R : A -> A -> Prop)
    (l l' : list A) :
  (forall a b, P a -> R a b -> P b) ->
  Forall2 R l l' -> Forall P l -> Forall P l'.
Proof.
  intros Hstep H2. induction H2 as [|a b l l' Hab H2 IH]; intros HP.
  - constructor.
  - inversion HP as [|? ? Ha Hl]; subst.
    constructor; [eapply Hstep; eauto | auto].
Qed.

Lemma spawn_Forall (P : Person.t -> Prop) (draws : list spawn_draw) :
  (forall d, valid_spawn d ->
             P (Person.init (fst (fst d)) (snd (fst d)) (snd d))) ->
  Forall valid_spawn draws -> Forall P (spawn draws).
Proof.
  intros HP Hd. unfold spawn. apply Forall_map.
  eapply Forall_impl; [|exact Hd]. exact HP.
Qed.

Lemma step_people (hypot : Q -> Q -> Q) (w w' : World) (a : action) :
  step hypot w a = Some w' ->
  match a with
  | ClickReset draws => people w' = spawn draws
  | Tick _ =>
      exists cells,
        Forall2 (fun p p' => Person.update hypot EXIT_POSITIONS WALLS p
                               cells (alarm_on w) = Some p')
          (people w) (people w')
  | _ => people w' = people w
  end.
Proof.
  destruct a as [| |draws|sd]; cbn; intros H.
  - now injection H as <-.
  - injection H as <-. unfold start_fire.
    now destruct (negb (Fire.active (fire w))).
  - now injection H as <-.
  - apply tick_inv in H as (_ & _ & _ & Hp). eauto.
Qed.

(** A property of agents that spawning establishes and [update] keeps holds
    of every agent of every session. *)
Lemma reachable_people_inv (hypot : Q -> Q -> Q) (P : Person.t -> Prop) :
  (forall d, valid_spawn d ->
             P (Person.init (fst (fst d)) (snd (fst d)) (snd d))) ->
  (forall p cells al p',
      P p -> Person.update hypot EXIT_POSITIONS WALLS p cells al = Some p' ->
      P p') ->
  forall w, reachable hypot w -> Forall P (people w).
Proof.
  intros Hinit Hupd w Hr.
  induction Hr as [draws [_ Hd] | w a w' Hw IH Ha Hs].
  - cbn. now apply spawn_Forall.
  - pose proof (step_people hypot w w' a Hs) as Hp.
    destruct a as [| |draws|sd].
    + now rewrite Hp.
    + now rewrite Hp.
    + rewrite Hp. apply spawn_Forall; [exact Hinit | apply Ha].
    + destruct Hp as [cells Hp].
      apply (Forall2_Forall_step P _ _ _
               (fun p p' HP Hu => Hupd p cells (alarm_on w) p' HP Hu) Hp IH).
Qed.


(** X2.  Only the alarm button turns the alarm on and only a reset turns it
    off: along any sequence of clicks and turns without a reset an alarm
    that is on stays on, and along any sequence without a click on the
    alarm button an alarm that is off stays off. *)
Theorem X2_alarm_latch (hypot : Q -> Q -> Q) (acts : list action)
    (w w' : World) :
  steps hypot w acts = Some w' ->
  (alarm_on w = true -> forallb (fun a => negb (is_reset a)) acts = true ->
   alarm_on w' = true)
  /\ (alarm_on w = false -> forallb (fun a => negb (is_alarm a)) acts = true ->
      alarm_on w' = false).
Proof.
  revert w. induction acts as [|a acts IH]; intros w; cbn.
  - intros [= <-]. auto.
  - destruct (step hypot w a) as [w1|] eqn:E; [|discriminate].
    intros Hs. destruct (IH w1 Hs) as [IHon IHoff].
    assert (Hal : alarm_on w1 =
                  match a with
                  | ClickAlarm => true
                  | ClickReset _ => false
                  | _ => alarm_on w
                  end).
    { destruct a as [| |draws|sd]; cbn in E.
      - now injection E as <-.
      - injection E as <-. unfold start_fire.
        now destruct (negb (Fire.active (fire w))).
      - now injection E as <-.
      - now apply tick_inv in E as (_ & -> & _). }
    split; intros Hw Hall; apply andb_true_iff in Hall as [Ha Hrest].
    + apply IHon; [|exact Hrest]. rewrite Hal.
      destruct a; cbn in Ha; try discriminate; auto.
    + apply IHoff; [|exact Hrest]. rewrite Hal.
      destruct a; cbn in Ha; try discriminate; auto.
Qed.

(** The fire and the scheduler of a session are in one of two states. *)
Lemma reachable_fire_state (hypot : Q -> Q -> Q) (w : World) :
  reachable hypot w ->
  (Fire.active (fire w) = true /\ spreaders (env w) = 1%nat)
  \/ (Fire.active (fire w) = false /\ spreaders (env w) = 0%nat
      /\ Fire.cells (fire w) = []).
Proof.
  induction 1 as [draws Hd | w a w' Hw IH Ha Hs].
  - right. cbn. auto.
  - destruct a as [| |draws|sd]; cbn in Hs.
    + injection Hs as <-. exact IH.
    + injection Hs as <-. unfold start_fire.
      destruct IH as [[Hact Hn] | (Hact & Hn & Hc)]; rewrite Hact; cbn.
      * left. auto.
      * left. rewrite Hn. auto.
    + injection Hs as <-. right. cbn. auto.
    + apply tick_inv in Hs as (He & _ & Hf & _).
      rewrite He.
      destruct IH as [[Hact Hn] | (Hact & Hn & Hc)].
      * left. apply env_step_appends in Hf as [_ Ha']. split; congruence.
      * right. unfold env_step in Hf. rewrite Hn in Hf.
        destruct sd; cbn in Hf; injection Hf as <-; auto.
Qed.

(** X3.  In every session the scheduler holds at most one [Fire.spread]
    generator; it holds one exactly when the fire is active, and an inert
    fire has no cell. *)
Theorem X3_single_spread_process (hypot : Q -> Q -> Q) (w : World) :
  reachable hypot w ->
  (spreaders (env w) <= 1)%nat
  /\ (spreaders (env w) = 1%nat <-> Fire.active (fire w) = true)
  /\ (Fire.active (fire w) = false -> Fire.cells (fire w) = []).
Proof.
  intros Hr.
  destruct (reachable_fire_state hypot w Hr)
    as [[Hact Hn] | (Hact & Hn & Hc)]; rewrite Hn, Hact.
  - repeat split; auto. discriminate.
  - repeat split; auto; discriminate.
Qed.

(** ** The fire of a session *)

(** X4.  In every session all fire cells lie in the rectangle
    [50, SIM_WIDTH - 50] x [50, HEIGHT - 50], and the first cell, when there
    is one, is the ignition point (450, 300). *)
Theorem X4_fire_cells_in_arena (hypot : Q -> Q -> Q) (w : World) :
  reachable hypot w ->
  Forall cell_in_arena (Fire.cells (fire w))
  /\ (Fire.cells (fire w) = []
      \/ exists l, Fire.cells (fire w) = (450, 300) :: l).
Proof.
  induction 1 as [draws Hd | w a w' Hw [IHa IHh] Ha Hs].
  - cbn. split; [constructor | now left].
  - pose proof (reachable_fire_state hypot w Hw) as Hst.
    destruct a as [| |draws|sd]; cbn in Hs.
    + injection Hs as <-. auto.
    + injection Hs as <-. unfold start_fire.
      destruct Hst as [[Hact _] | (Hact & _ & Hc)]; rewrite Hact; cbn.
      * auto.
      * rewrite Hc. cbn. split; [|right; now exists []].
        repeat constructor; cbn; unfold SIM_WIDTH, HEIGHT; lia.
    + injection Hs as <-. cbn. split; [constructor | now left].
    + apply tick_inv in Hs as (_ & _ & Hf & _).
      unfold env_step in Hf.
      assert (Hcase : fire w' = fire w
                      \/ exists r ox oy,
                           Fire.spread (fire w) r ox oy = Some (fire w')).
      { destruct sd as [[[r ox] oy]|]; [|left; congruence].
        destruct (0 <? spreaders (env w))%nat; [|left; congruence].
        right. exists r, ox, oy. exact Hf. }
      destruct Hcase as [-> | (r & ox & oy & Hsp)]; [auto|].
      apply spread_appends in Hsp as (c & Hin & Hc & _).
      rewrite Hc. split.
      * apply Forall_app. split; [exact IHa|].
        repeat constructor; cbn; apply clamp_bounds;
          unfold SIM_WIDTH, HEIGHT; lia.
      * destruct IHh as [He | [l Hl]].
        -- rewrite He in Hin. destruct Hin.
        -- right. rewrite Hl. now exists (l ++ [(Fire.clamp SIM_WIDTH (fst c + ox),
                                                  Fire.clamp HEIGHT (snd c + oy))]).
Qed.


(** ** Agents *)

Lemma update_speed (hypot : Q -> Q -> Q) (exits : list (Z * Z))
    (walls : list Pygame.Rect) (p p' : Person.t) (cells : list (Z * Z))
    (al : bool) :
  Person.update hypot exits walls p cells al = Some p' ->
  Person.speed p' = Person.speed p.
Proof.
  unfold Person.update.
  destruct (negb al || Person.evacuated p); [now intros [= <-]|].
  destruct (Person.nearest_exit hypot exits (Person.pos p)); [|discriminate].
  destruct (Person.blocked walls _); now intros [= <-].
Qed.

(** X6.  Every agent of every session has a panic within [0, 1] and the
    speed it was spawned with, which lies within [0.88, 1.32] (the base
    speed 1.1 times a factor drawn from [0.8, 1.2]); [update] never writes
    the speed. *)
Theorem X6_agents_well_formed (hypot : Q -> Q -> Q) (w : World) :
  reachable hypot w ->
  Forall agent_ok (people w)
  /\ (forall exits walls p cells al p',
         Person.update hypot exits walls p cells al = Some p' ->
         Person.speed p' = Person.speed p).
Proof.
  intros Hr. split; [|intros; eapply update_speed; eauto].
  apply (reachable_people_inv hypot agent_ok); [| |exact Hr].
  - intros [[x0 y0] u] (_ & _ & Hlo & Hhi). cbn in Hlo, Hhi.
    unfold agent_ok, Person.init, BASE_SPEED. cbn.
    repeat split; lra.
  - intros p cells al p' (H0 & H1 & Hlo & Hhi) Hu.
    destruct (update_panic _ _ _ _ _ _ _ H0 H1 Hu) as [Ha Hb].
    rewrite <- (update_speed _ _ _ _ _ _ _ Hu) in Hlo, Hhi.
    unfold agent_ok. repeat split; lra.
Qed.

Lemma inject_Z_of_nat_S (k : nat) :
  (inject_Z (Z.of_nat (S k)) == inject_Z (Z.of_nat k) + 1)%Q.
Proof.
  rewrite Nat2Z.inj_succ. unfold Z.succ. rewrite inject_Z_plus. reflexivity.
Qed.


(** X8.  A blocked agent stays blocked: an agent that is not evacuated and
    whose next step (at its present panic) runs into a wall is returned
    unchanged by every sequence of [update] calls that see no fire cell,
    whether the alarm is on or off. *)
Theorem X8_blocked_forever (hypot : Q -> Q -> Q) (exits : list (Z * Z))
    (walls : list Pygame.Rect) (p : Person.t) (e : Z * Z)
    (frames : list (list (Z * Z) * bool)) :
  Person.evacuated p = false ->
  Person.nearest_exit hypot exits (Person.pos p) = Some e ->
  Person.blocked walls (Person.candidate hypot p (Person.panic p) e) = true ->
  Forall (fun fr => fst fr = []) frames ->
  Person.run hypot exits walls p frames = Some p.
Proof.
  intros Hev He Hb Hfr.
  induction Hfr as [|[cells al] frames Hc _ IH]; cbn; [reflexivity|].
  cbn in Hc. subst cells.
  assert (Hu : Person.update hypot exits walls p [] al = Some p).
  { destruct al; [|apply update_idle; now left].
    rewrite update_active by exact Hev. rewrite He. cbv zeta.
    change (Person.smoke_panic hypot p []) with (Person.panic p).
    rewrite Hb. destruct p. cbn in Hev. now subst. }
  now rewrite Hu.
Qed.

(** ** The target exit *)

Lemma py_min_key_fold_first {A : Type} (key : A -> Q) (l : list A) (a : A) :
  let m := fold_left
             (fun best item => if Qltb (key item) (key best) then item else best)
             l a in
  (m = a /\ forall e, In e l -> (key a <= key e)%Q)
  \/ (exists l1 l2,
        l = l1 ++ m :: l2 /\ (key m < key a)%Q
        /\ (forall e, In e l1 -> (key m < key e)%Q)
        /\ (forall e, In e l2 -> (key m <= key e)%Q)).
Proof.
  revert a. induction l as [|b l IH]; intros a; cbn.
  - left. split; [reflexivity | intros e []].
  - destruct (Qltb (key b) (key a)) eqn:E.
    + apply Qltb_true in E. right.
      destruct (IH b) as [[Hm Hall] | (l1 & l2 & Hl & Hlt & H1 & H2)].
      * exists [], l. rewrite Hm. cbn. repeat split; auto. intros e [].
      * exists (b :: l1), l2. cbn. rewrite Hl at 1.
        repeat split; auto; [lra|].
        intros e [<- | He]; [exact Hlt | now apply H1].
    + apply Qltb_false in E.
      destruct (IH a) as [[Hm Hall] | (l1 & l2 & Hl & Hlt & H1 & H2)].
      * left. split; [exact Hm|]. intros e [<- | He]; [exact E | now apply Hall].
      * right. exists (b :: l1), l2. cbn. rewrite Hl at 1.
        repeat split; auto.
        intros e [<- | He]; [lra | now apply H1].
Qed.

(** X9.  The exit an agent heads for: with no exit configured the choice
    raises; otherwise it is an exit of the list that is strictly closer
    (by [dist]) than every exit listed before it and at least as close as
    every exit listed after it, that is the first of the closest exits. *)
Theorem X9_nearest_exit_first_minimum (hypot : Q -> Q -> Q)
    (exits : list (Z * Z)) (p : Q * Q) :
  (exits = [] -> Person.nearest_exit hypot exits p = None)
  /\ (exits <> [] ->
      exists e l1 l2,
        Person.nearest_exit hypot exits p = Some e
        /\ exits = l1 ++ e :: l2
        /\ (forall e', In e' l1 ->
              (dist hypot p (pointQ e) < dist hypot p (pointQ e'))%Q)
        /\ (forall e', In e' l2 ->
              (dist hypot p (pointQ e) <= dist hypot p (pointQ e'))%Q)).
Proof.
  split; [now intros ->|].
  destruct exits as [|a l]; [congruence|]. intros _.
  unfold Person.nearest_exit, py_min_key.
  destruct (py_min_key_fold_first (fun e => dist hypot p (pointQ e)) l a)
    as [[Hm Hall] | (l1 & l2 & Hl & Hlt & H1 & H2)].
  - eexists. exists [], l. split; [reflexivity|].
    rewrite Hm. cbn. repeat split; auto. intros e' [].
  - eexists. exists (a :: l1), l2. split; [reflexivity|].
    cbn. rewrite Hl at 1. repeat split; auto.
    intros e' [<- | He]; [exact Hlt | now apply H1].
Qed.

(** ** The length of a step *)

Lemma scaled_component_bound (s c h : Q) :
  (0 <= s)%Q -> (- h <= c)%Q -> (c <= h)%Q ->
  (- s <= s * c / py_or h 1)%Q /\ (s * c / py_or h 1 <= s)%Q.
Proof.
  intros Hs Hlo Hhi. unfold py_or.
  destruct (Qeq_bool h 0) eqn:E.
  - apply Qeq_bool_eq in E.
    assert (Hc : (c == 0)%Q) by lra.
    assert (Hz : (s * c / 1 == 0)%Q) by (rewrite Hc; field).
    rewrite Hz. split; lra.
  - apply Qeq_bool_neq in E.
    assert (Hh : (0 < h)%Q).
    { destruct (Qlt_le_dec 0 h) as [?|Hle]; [assumption|].
      exfalso. apply E. lra. }
    split.
    + apply Qle_shift_div_l; [exact Hh|]. nra.
    + apply Qle_shift_div_r; [exact Hh|]. nra.
Qed.

Lemma update_arrival (hypot : Q -> Q -> Q) (exits : list (Z * Z))
    (walls : list Pygame.Rect) (p p' : Person.t) (cells : list (Z * Z))
    (al : bool) :
  Person.evacuated p = false ->
  Person.update hypot exits walls p cells al = Some p' ->
  Person.evacuated p' = true ->
  exists t,
    In t exits /\ (dist hypot (Person.pos p') (pointQ t) < 12)%Q.
Proof.
  intros Hev Hu Hev'.
  destruct al; [|rewrite update_idle in Hu by (now left); congruence].
  rewrite update_active in Hu by exact Hev.
  destruct (Person.nearest_exit hypot exits (Person.pos p)) as [t|] eqn:Et;
    [|discriminate].
  cbv zeta in Hu. exists t. split; [eapply py_min_key_In; exact Et|].
  destruct (Person.blocked walls _); injection Hu as <-; cbn in Hev';
    [discriminate|].
  apply Qltb_true in Hev'. exact Hev'.
Qed.


(** ** The buttons *)

(** X11.  A mouse click runs at most one callback.  Inside the column
    930 <= x < 1170 the rows 60 <= y < 105, 120 <= y < 165 and
    180 <= y < 225 run [alarm], [start_fire] and [reset]; every other
    click, and so every click inside the simulation area, leaves the
    session as it is. *)
Theorem X11_click_runs_one_callback (w : World) (px py : Z)
    (draws : list spawn_draw) :
  mouse_down w (px, py) draws
  = (if (930 <=? px) && (px <? 1170)
     then
       if (60 <=? py) && (py <? 105) then alarm w
       else if (120 <=? py) && (py <? 165) then start_fire w
       else if (180 <=? py) && (py <? 225) then reset w draws
       else w
     else w)
  /\ (px < SIM_WIDTH -> mouse_down w (px, py) draws = w).
Proof.
  unfold mouse_down, buttons, Button.click, Button.init, Pygame.collidepoint,
    SIM_WIDTH.
  cbn.
  split; [|intros Hpx];
    repeat match goal with
      | |- context [(?a <=? ?b)] => destruct (Z.leb_spec a b)
      | |- context [(?a <? ?b)] => destruct (Z.ltb_spec a b)
      end; cbn; try reflexivity; try lia.
Qed.

(** ** What is drawn *)

(** X12.  The colour an agent is drawn in never cools down: along any
    sequence of [update] calls on an agent with panic within [0, 1], an
    agent drawn red stays red, and an agent drawn blue at the end was blue
    at the start. *)
Theorem X12_body_color_never_cools (hypot : Q -> Q -> Q)
    (exits : list (Z * Z)) (walls : list Pygame.Rect) (p p' : Person.t)
    (frames : list (list (Z * Z) * bool)) :
  (0 <= Person.panic p)%Q -> (Person.panic p <= 1)%Q ->
  Person.run hypot exits walls p frames = Some p' ->
  (body_color (Person.panic p) = (255, 80, 80) ->
   body_color (Person.panic p') = (255, 80, 80))
  /\ (body_color (Person.panic p') = (80, 150, 255) ->
      body_color (Person.panic p) = (80, 150, 255)).
Proof.
  intros H0 H1 Hr.
  destruct (run_panic _ _ _ _ _ _ H0 H1 Hr) as [Hmono _].
  unfold body_color.
  destruct (Qltb (Person.panic p) 0.4) eqn:E1;
    destruct (Qltb (Person.panic p) 0.8) eqn:E2;
    destruct (Qltb (Person.panic p') 0.4) eqn:E3;
    destruct (Qltb (Person.panic p') 0.8) eqn:E4;
    split; intros Hc; try reflexivity; try discriminate Hc;
    repeat match goal with
      | H : Qltb _ _ = true |- _ => apply Qltb_true in H
      | H : Qltb _ _ = false |- _ => apply Qltb_false in H
      end; lra.
Qed.

(** X13.  A turn of the main loop never brings an agent back: an agent
    that is evacuated before the turn is the same after it, so the number
    of agents drawn ([not p.evacuated]) never goes up. *)
Theorem X13_drawn_never_grows (hypot : Q -> Q -> Q) (w w' : World)
    (sd : option spread_draw) :
  tick hypot w sd = Some w' ->
  Forall2 (fun p p' => Person.evacuated p = true -> p' = p)
    (people w) (people w')
  /\ (length (drawn w') <= length (drawn w))%nat.
Proof.
  intros Ht. apply tick_inv in Ht as (_ & _ & _ & Hp).
  unfold drawn.
  induction Hp as [|p p' ps ps' Hu Hp [IH1 IH2]]; cbn.
  - split; [constructor | lia].
  - assert (Hkeep : Person.evacuated p = true -> p' = p).
    { intros He. rewrite update_idle in Hu by (now right). congruence. }
    split; [constructor; assumption|].
    destruct (Person.evacuated p) eqn:Ep.
    + rewrite (Hkeep eq_refl), Ep. cbn. exact IH2.
    + destruct (Person.evacuated p'); cbn; lia.
Qed.


(** ** Fire cells out of range *)

Lemma smoke_panic_filter (hypot : Q -> Q -> Q) (p : Person.t)
    (cells : list (Z * Z)) :
  Person.smoke_panic hypot p
    (filter (fun c => Qltb (dist hypot (Person.pos p) (pointQ c)) SMOKE_RADIUS)
       cells)
  = Person.smoke_panic hypot p cells.
Proof.
  unfold Person.smoke_panic. generalize (Person.panic p) as pn.
  induction cells as [|c cells IH]; intros pn; cbn; [reflexivity|].
  destruct (Qltb (dist hypot (Person.pos p) (pointQ c)) SMOKE_RADIUS) eqn:E;
    cbn; [rewrite E|]; apply IH.
Qed.

(** X15.  Fire cells at [SMOKE_RADIUS] or farther from an agent have no
    effect on it: [update] returns the same result when they are removed
    from the list it is given. *)
Theorem X15_update_ignores_far_cells (hypot : Q -> Q -> Q)
    (exits : list (Z * Z)) (walls : list Pygame.Rect) (p : Person.t)
    (cells : list (Z * Z)) (al : bool) :
  Person.update hypot exits walls p
    (filter (fun c => Qltb (dist hypot (Person.pos p) (pointQ c)) SMOKE_RADIUS)
       cells) al
  = Person.update hypot exits walls p cells al.
Proof.
  unfold Person.update. now rewrite smoke_panic_filter.
Qed.

(** ** The further properties at concrete inputs *)

Lemma uniform_spawns_valid : valid_spawns (repeat (260, 100, 1%Q) NUM_PEOPLE).
Proof.
  split; [reflexivity|].
  apply Forall_forall. intros d Hd. apply repeat_spec in Hd. subst d.
  unfold valid_spawn. cbn.
  repeat apply conj; try (intro Hcmp; discriminate Hcmp).
Qed.

(** A session a few actions after its start: the alarm is rung, the fire is
    started, and one turn of the main loop sees the fire spread. *)
Lemma busy_session_reachable :
  exists w,
    steps hypot_fixed (uniform_world 260 100 1)
      [ClickAlarm; ClickStartFire; Tick (Some (0%nat, 10, -10))] = Some w
    /\ reachable hypot_fixed w.
Proof.
  destruct (steps hypot_fixed (uniform_world 260 100 1)
              [ClickAlarm; ClickStartFire; Tick (Some (0%nat, 10, -10))])
    as [w|] eqn:E; [|vm_compute in E; discriminate E].
  exists w. split; [reflexivity|].
  cbn [steps step] in E.
  destruct (tick hypot_fixed (start_fire (alarm (uniform_world 260 100 1)))
              (Some (0%nat, 10, -10))) as [w1|] eqn:Et; [|discriminate E].
  injection E as <-.
  eapply reach_step with (a := Tick (Some (0%nat, 10, -10)));
    [| unfold valid_action, valid_spread; cbn [fst snd]; lia | exact Et].
  eapply reach_step with (a := ClickStartFire); [| exact I | reflexivity].
  eapply reach_step with (a := ClickAlarm); [| exact I | reflexivity].
  apply reach_init. exact uniform_spawns_valid.
Qed.


Lemma X2_witness :
  exists w,
    steps hypot_fixed (alarm (uniform_world 260 100 1))
      [ClickStartFire; Tick (Some (0%nat, 10, -10)); ClickAlarm] = Some w
    /\ alarm_on w = true.
Proof.
  destruct (steps hypot_fixed (alarm (uniform_world 260 100 1))
              [ClickStartFire; Tick (Some (0%nat, 10, -10)); ClickAlarm])
    as [w|] eqn:E; [|vm_compute in E; discriminate E].
  exists w. split; [reflexivity|].
  exact (proj1 (X2_alarm_latch hypot_fixed _ _ w E) eq_refl eq_refl).
Defined.

Lemma X3_witness :
  exists w,
    steps hypot_fixed (uniform_world 260 100 1)
      [ClickAlarm; ClickStartFire; Tick (Some (0%nat, 10, -10))] = Some w
    /\ (spreaders (env w) <= 1)%nat.
Proof.
  destruct busy_session_reachable as (w & Hs & Hr).
  exists w. split; [exact Hs|].
  exact (proj1 (X3_single_spread_process hypot_fixed w Hr)).
Defined.

Lemma X4_witness :
  exists w,
    steps hypot_fixed (uniform_world 260 100 1)
      [ClickAlarm; ClickStartFire; Tick (Some (0%nat, 10, -10))] = Some w
    /\ Forall cell_in_arena (Fire.cells (fire w)).
Proof.
  destruct busy_session_reachable as (w & Hs & Hr).
  exists w. split; [exact Hs|].
  exact (proj1 (X4_fire_cells_in_arena hypot_fixed w Hr)).
Defined.


Lemma X6_witness :
  exists w,
    steps hypot_fixed (uniform_world 260 100 1)
      [ClickAlarm; ClickStartFire; Tick (Some (0%nat, 10, -10))] = Some w
    /\ Forall agent_ok (people w).
Proof.
  destruct busy_session_reachable as (w & Hs & Hr).
  exists w. split; [exact Hs|].
  exact (proj1 (X6_agents_well_formed hypot_fixed w Hr)).
Defined.


(** An agent spawned at (260, 100), inside the first wall. *)
Lemma X8_witness :
  Person.run hypot_fixed EXIT_POSITIONS WALLS (Person.init 260 100 1)
    [([], true); ([], false); ([], true)]
  = Some (Person.init 260 100 1).
Proof.
  apply (X8_blocked_forever hypot_fixed EXIT_POSITIONS WALLS
           (Person.init 260 100 1) (850, 120)).
  - reflexivity.
  - vm_compute. reflexivity.
  - vm_compute. reflexivity.
  - repeat constructor.
Defined.

(** From (100, 500) the second exit is the closer one. *)
Lemma X9_witness :
  exists l1 l2,
    Person.nearest_exit hypot_fixed EXIT_POSITIONS (pointQ (100, 500))
    = Some (850, 530)
    /\ EXIT_POSITIONS = l1 ++ (850, 530) :: l2.
Proof.
  assert (Hne : EXIT_POSITIONS <> []) by discriminate.
  destruct (proj2 (X9_nearest_exit_first_minimum hypot_fixed EXIT_POSITIONS
                     (pointQ (100, 500))) Hne)
    as (e & l1 & l2 & Hn & Hl & _).
  assert (He : e = (850, 530)).
  { vm_compute in Hn. now injection Hn as <-. }
  subst e. exists l1, l2. auto.
Defined.


(** A click in the middle of the simulation area. *)
Lemma X11_witness :
  mouse_down (alarm (uniform_world 260 100 1)) (450, 300) []
  = alarm (uniform_world 260 100 1).
Proof.
  apply (proj2 (X11_click_runs_one_callback (alarm (uniform_world 260 100 1))
                  450 300 [])).
  reflexivity.
Defined.

(** A red agent next to a fire cell. *)
Lemma X12_witness :
  exists p',
    Person.run hypot_fixed EXIT_POSITIONS WALLS
      (Person.mk 245 100 1.1 0.9 false) [([(245, 100)], true)] = Some p'
    /\ body_color (Person.panic p') = (255, 80, 80).
Proof.
  destruct (Person.run hypot_fixed EXIT_POSITIONS WALLS
              (Person.mk 245 100 1.1 0.9 false) [([(245, 100)], true)])
    as [p'|] eqn:E; [|vm_compute in E; discriminate E].
  exists p'. split; [reflexivity|].
  assert (H0 : (0 <= Person.panic (Person.mk 245 100 1.1 0.9 false))%Q)
    by (intro Hcmp; discriminate Hcmp).
  assert (H1 : (Person.panic (Person.mk 245 100 1.1 0.9 false) <= 1)%Q)
    by (intro Hcmp; discriminate Hcmp).
  apply (proj1 (X12_body_color_never_cools hypot_fixed EXIT_POSITIONS WALLS
                  (Person.mk 245 100 1.1 0.9 false) p' _ H0 H1 E)).
  reflexivity.
Defined.

(** One evacuated agent and one on its way. *)
Lemma X13_witness :
  exists w',
    tick hypot_fixed
      (mkWorld Env_new
         [Person.mk 845 120 1.1 0 true; Person.init 600 120 1]
         Fire.init true) None = Some w'
    /\ (length (drawn w') <= 1)%nat.
Proof.
  destruct (tick hypot_fixed
              (mkWorld Env_new
                 [Person.mk 845 120 1.1 0 true; Person.init 600 120 1]
                 Fire.init true) None) as [w'|] eqn:E;
    [|vm_compute in E; discriminate E].
  exists w'. split; [reflexivity|].
  exact (proj2 (X13_drawn_never_grows hypot_fixed _ w' None E)).
Defined.

